(** * GuitarChordProgression: a shallow embedding of [main.py]

    The program picks a key and a mode at random, derives the seven-note
    scale, picks a progression template and prints the chords.  Every Python
    function of the module is embedded as a computation in one monad [M]
    that threads the two pieces of process state the module can touch (the
    random source and standard output) and propagates exceptions.  Python
    [int] is [Z], [str] is [string], a [list] is a [list]. *)

From Stdlib Require Import ZArith List Strings.String Strings.Ascii Bool Lia.
Import ListNotations.

Local Open Scope string_scope.
Local Open Scope Z_scope.

(** ** Process state, exceptions and the monad *)

(** The exceptions that the builtins used by the module and the module
    itself can raise.  Messages are not modelled: the one raised by
    [degree_to_chord] is ["Degree must be between 1 and 7"]. *)
Inductive exn : Type :=
| ValueError
| IndexError
| ZeroDivisionError.

(** The random source is an arbitrary infinite sequence of raw draws together
    with the position of the next one; standard output is the text written
    so far. *)
Record world : Type := mkWorld {
  entropy : nat -> nat;
  cursor : nat;
  stdout : string
}.

Inductive outcome (A : Type) : Type :=
| Return (a : A)
| Raise (e : exn).
Arguments Return {A} a.
Arguments Raise {A} e.

Definition M (A : Type) : Type := world -> outcome A * world.

Definition ret {A : Type} (a : A) : M A := fun w => (Return a, w).

Definition raise {A : Type} (e : exn) : M A := fun w => (Raise e, w).

Definition bind {A B : Type} (c : M A) (k : A -> M B) : M B :=
  fun w =>
    match c w with
    | (Return a, w') => k a w'
    | (Raise e, w') => (Raise e, w')
    end.

Notation "x <- c ;; k" := (bind c (fun x => k))
  (at level 61, c at next level, right associativity).
Notation "c ;; k" := (bind c (fun _ => k))
  (at level 61, right associativity).

(** ** The builtins the module uses *)

Definition len {A : Type} (l : list A) : Z := Z.of_nat (List.length l).

(** [l[i]]: a negative index counts from the end, an index out of range
    raises [IndexError]. *)
Definition getitem {A : Type} (l : list A) (i : Z) : M A :=
  let j := if i <? 0 then i + len l else i in
  if (j <? 0) || (len l <=? j) then raise IndexError
  else match nth_error l (Z.to_nat j) with
       | Some a => ret a
       | None => raise IndexError
       end.

Fixpoint index_from (l : list string) (x : string) (i : Z) : M Z :=
  match l with
  | [] => raise ValueError
  | y :: t => if (y =? x)%string then ret i else index_from t x (i + 1)
  end.

(** [l.index(x)]: the position of the first element equal to [x], or
    [ValueError]. *)
Definition list_index (l : list string) (x : string) : M Z := index_from l x 0.

(** [a % b] on integers: floor remainder, [ZeroDivisionError] on [b = 0]. *)
Definition py_mod (a b : Z) : M Z :=
  if b =? 0 then raise ZeroDivisionError else ret (a mod b).

(** [for x in l: body], threading the local variables [s] the body updates. *)
Fixpoint for_each {A S : Type} (l : list A) (body : S -> A -> M S) (s : S) : M S :=
  match l with
  | [] => ret s
  | x :: t => s' <- body s x ;; for_each t body s'
  end.

(** [[f(x) for x in l]]. *)
Fixpoint comprehension {A B : Type} (f : A -> M B) (l : list A) : M (list B) :=
  match l with
  | [] => ret []
  | x :: t => y <- f x ;; ys <- comprehension f t ;; ret (y :: ys)
  end.

(** [' '.join(l)] is [String.concat " " l]. *)
Definition join (sep : string) (l : list string) : string := String.concat sep l.

Definition newline : string := String (ascii_of_nat 10) EmptyString.

(** [print(s)] writes [s] and a line feed. *)
Definition print (s : string) : M unit :=
  fun w => (Return tt,
            {| entropy := entropy w; cursor := cursor w;
               stdout := (stdout w ++ (s ++ newline))%string |}).

(** One draw below [n] from the random source ([n] positive). *)
Definition randbelow (n : nat) : M nat :=
  fun w => (Return (entropy w (cursor w) mod n)%nat,
            {| entropy := entropy w; cursor := S (cursor w);
               stdout := stdout w |}).

(** [random.choice(l)]: [l[randbelow(len(l))]], [IndexError] on an empty
    sequence. *)
Definition random_choice {A : Type} (l : list A) : M A :=
  match l with
  | [] => raise IndexError
  | _ :: _ => i <- randbelow (List.length l) ;; getitem l (Z.of_nat i)
  end.

(** ** The module's tables *)

Definition NOTES : list string :=
  ["C"; "C#"; "D"; "D#"; "E"; "F"; "F#"; "G"; "G#"; "A"; "A#"; "B"]%string.

Definition MAJOR_OFFSETS : list Z := [0; 2; 4; 5; 7; 9; 11].
Definition MINOR_OFFSETS : list Z := [0; 2; 3; 5; 7; 8; 10].

Definition MAJOR_QUALITIES : list string :=
  ["maj"; "min"; "min"; "maj"; "maj"; "min"; "dim"]%string.
Definition MINOR_QUALITIES : list string :=
  ["min"; "dim"; "maj"; "min"; "min"; "maj"; "maj"]%string.

Definition MAJOR_PROGRESSIONS : list (list string * list Z) :=
  [ (["I"; "V"; "vi"; "IV"]%string, [1; 5; 6; 4]);
    (["I"; "vi"; "IV"; "V"]%string, [1; 6; 4; 5]);
    (["vi"; "IV"; "I"; "V"]%string, [6; 4; 1; 5]);
    (["I"; "IV"; "V"; "I"]%string, [1; 4; 5; 1]) ].

Definition MINOR_PROGRESSIONS : list (list string * list Z) :=
  [ (["i"; "VI"; "III"; "VII"]%string, [1; 6; 3; 7]);
    (["i"; "iv"; "v"; "i"]%string, [1; 4; 5; 1]);
    (["i"; "VII"; "VI"; "VII"]%string, [1; 7; 6; 7]);
    (["i"; "VI"; "VII"; "i"]%string, [1; 6; 7; 1]) ].

(** ** The module's functions *)

Definition pick_key_and_mode : M (string * string) :=
  root <- random_choice NOTES ;;
  mode <- random_choice ["major"; "minor"]%string ;;
  ret (root, mode).

Definition build_scale (root mode : string) : M (list string) :=
  root_index <- list_index NOTES root ;;
  let offsets := if (mode =? "major")%string then MAJOR_OFFSETS else MINOR_OFFSETS in
  for_each offsets
    (fun scale semitone_offset =>
       note_index <- py_mod (root_index + semitone_offset) (len NOTES) ;;
       note <- getitem NOTES note_index ;;
       ret (scale ++ [note])%list)
    [].

Definition chord_name (root_note quality : string) : string :=
  if (quality =? "maj")%string then root_note
  else if (quality =? "min")%string then (root_note ++ "m")%string
  else if (quality =? "dim")%string then (root_note ++ "dim")%string
  else root_note.

Definition degree_to_chord (scale : list string) (degree : Z) (mode : string)
  : M string :=
  if (degree <? 1) || (degree >? 7) then raise ValueError
  else
    let qualities :=
      if (mode =? "major")%string then MAJOR_QUALITIES else MINOR_QUALITIES in
    let scale_index := degree - 1 in
    root_note <- getitem scale scale_index ;;
    quality <- getitem qualities scale_index ;;
    ret (chord_name root_note quality).

Definition pick_progression (mode : string) : M (list string * list Z) :=
  if (mode =? "major")%string then random_choice MAJOR_PROGRESSIONS
  else random_choice MINOR_PROGRESSIONS.

Definition generate_progression : M unit :=
  key <- pick_key_and_mode ;;
  let '(root, mode) := key in
  scale <- build_scale root mode ;;
  template <- pick_progression mode ;;
  let '(roman, degrees) := template in
  chords <- comprehension (fun d => degree_to_chord scale d mode) degrees ;;
  print "Random Chord Progression Generator" ;;
  print ("Key: " ++ root ++ " " ++ mode)%string ;;
  print ("Progression: " ++ join " " roman)%string ;;
  print ("Chords: " ++ join " " chords)%string ;;
  print "Tip: Try 4 beats per chord.".

Definition main : M unit := generate_progression.

(** ** Vocabulary of the statements *)

(** A computation is [pure] when its outcome is the same in every world and
    it leaves the world as it found it: it neither draws from the random
    source nor writes. *)
Definition pure {A : Type} (c : M A) : Prop :=
  exists r : outcome A, forall w : world, c w = (r, w).

(** The world after one draw, and the value that draw gives below [n]. *)
Definition advance (w : world) : world :=
  {| entropy := entropy w; cursor := S (cursor w); stdout := stdout w |}.

Definition draw (w : world) (n : nat) : nat := (entropy w (cursor w) mod n)%nat.

(** The pitch class at a position of [NOTES]. *)
Definition note_at (i : Z) : option string := nth_error NOTES (Z.to_nat i).

(** [scale] follows [offsets] from the root at position [k] of [NOTES]: its
    [i]-th element is the pitch class at position [(k + offsets[i]) mod 12]. *)
Definition follows_offsets (offsets : list Z) (k : nat) (scale : list string) : Prop :=
  forall i : nat, (i < 7)%nat ->
    nth_error scale i = note_at ((Z.of_nat k + nth i offsets 0) mod 12).

(** The three chord qualities, and the test under which [chord_name] runs
    past its three comparisons to the final [return]. *)
Definition known_quality (q : string) : Prop :=
  q = "maj" \/ q = "min" \/ q = "dim".

Definition reaches_fallback (quality : string) : bool :=
  negb (quality =? "maj")%string && negb (quality =? "min")%string
  && negb (quality =? "dim")%string.

Definition degree_in_range (d : Z) : Prop := 1 <= d <= 7.

(** The text of a sequence of lines, each ended by a line feed. *)
Definition unlines (ls : list string) : string :=
  String.concat "" (map (fun l => (l ++ newline)%string) ls).

(** The number of line feeds in a text, that is of lines it completes. *)
Fixpoint line_feeds (s : string) : nat :=
  match s with
  | EmptyString => 0%nat
  | String c s' =>
      ((if Ascii.eqb c (ascii_of_nat 10) then 1 else 0) + line_feeds s')%nat
  end.

(** The roman numerals of the degrees 1 to 7, in upper and in lower case, as
    the progression templates write them. *)
Definition UPPER_NUMERALS : list string :=
  ["I"; "II"; "III"; "IV"; "V"; "VI"; "VII"]%string.

Definition LOWER_NUMERALS : list string :=
  ["i"; "ii"; "iii"; "iv"; "v"; "vi"; "vii"]%string.

(** A world to run the functions in at concrete inputs: the draws are
    0, 1, 2, ... and nothing has been written. *)
Definition sample_world : world :=
  {| entropy := fun n => n; cursor := 0; stdout := "" |}.

Create HintDb purity.

(** ** Running computations *)

Lemma bind_run {A B : Type} (c : M A) (k : A -> M B) (w w' : world) (a : A) :
  c w = (Return a, w') -> bind c k w = k a w'.
Proof. intros H. unfold bind. rewrite H. reflexivity. Qed.

Lemma bind_raise {A B : Type} (c : M A) (k : A -> M B) (w w' : world) (e : exn) :
  c w = (Raise e, w') -> bind c k w = (Raise e, w').
Proof. intros H. unfold bind. rewrite H. reflexivity. Qed.

Lemma getitem_nat {A : Type} (l : list A) (k : nat) (d : A) (w : world) :
  (k < List.length l)%nat -> getitem l (Z.of_nat k) w = (Return (nth k l d), w).
Proof.
  intros Hk. unfold getitem, len.
  destruct (Z.ltb_spec (Z.of_nat k) 0) as [Hneg | _]; [lia |].
  destruct (Z.ltb_spec (Z.of_nat k) 0) as [Hneg | _]; [lia |].
  destruct (Z.leb_spec (Z.of_nat (List.length l)) (Z.of_nat k)) as [Hle | _]; [lia |].
  cbn [orb]. rewrite Nat2Z.id.
  rewrite (nth_error_nth' l d Hk). reflexivity.
Qed.

Lemma getitem_in_range {A : Type} (l : list A) (i : Z) (d : A) (w : world) :
  0 <= i < len l -> getitem l i w = (Return (nth (Z.to_nat i) l d), w).
Proof.
  intros Hi. unfold len in Hi.
  rewrite <- (Z2Nat.id i) at 1 by lia.
  apply getitem_nat. lia.
Qed.

Lemma pure_ret {A : Type} (a : A) : pure (ret a).
Proof. exists (Return a). reflexivity. Qed.

Lemma pure_raise {A : Type} (e : exn) : pure (@raise A e).
Proof. exists (Raise e). reflexivity. Qed.

Lemma pure_bind {A B : Type} (c : M A) (k : A -> M B) :
  pure c -> (forall a, pure (k a)) -> pure (bind c k).
Proof.
  intros [r Hc] Hk. destruct r as [a | e].
  - destruct (Hk a) as [r' Hr']. exists r'. intros w.
    rewrite (bind_run _ _ _ _ _ (Hc w)). apply Hr'.
  - exists (Raise e). intros w. apply bind_raise, Hc.
Qed.

Lemma pure_getitem {A : Type} (l : list A) (i : Z) : pure (getitem l i).
Proof.
  unfold getitem.
  destruct (_ || _); [apply pure_raise |].
  destruct (nth_error _ _); [apply pure_ret | apply pure_raise].
Qed.

Lemma pure_index_from (l : list string) (x : string) :
  forall i, pure (index_from l x i).
Proof.
  induction l as [| y t IH]; intros i; cbn [index_from].
  - apply pure_raise.
  - destruct (y =? x)%string; [apply pure_ret | apply IH].
Qed.

Lemma pure_list_index (l : list string) (x : string) : pure (list_index l x).
Proof. apply pure_index_from. Qed.

Lemma pure_py_mod (a b : Z) : pure (py_mod a b).
Proof. unfold py_mod. destruct (b =? 0); [apply pure_raise | apply pure_ret]. Qed.

Lemma pure_for_each {A S : Type} (l : list A) (body : S -> A -> M S) :
  (forall s x, pure (body s x)) -> forall s, pure (for_each l body s).
Proof.
  intros Hbody. induction l as [| x t IH]; intros s; cbn [for_each].
  - apply pure_ret.
  - apply pure_bind; [apply Hbody | exact IH].
Qed.

#[local] Hint Resolve pure_ret pure_raise pure_getitem pure_list_index pure_py_mod
  : purity.

Lemma pure_build_scale (root mode : string) : pure (build_scale root mode).
Proof.
  unfold build_scale.
  apply pure_bind; [auto with purity |]. intros root_index.
  apply pure_for_each. intros scale semitone_offset.
  apply pure_bind; [auto with purity |]. intros note_index.
  apply pure_bind; auto with purity.
Qed.

Lemma pure_degree_to_chord (scale : list string) (degree : Z) (mode : string) :
  pure (degree_to_chord scale degree mode).
Proof.
  unfold degree_to_chord.
  destruct (_ || _); [auto with purity |].
  apply pure_bind; [auto with purity |]. intros root_note.
  apply pure_bind; auto with purity.
Qed.

(** ** What each function computes *)

Lemma build_scale_run (k : nat) (r mode : string) (w : world) :
  nth_error NOTES k = Some r ->
  build_scale r mode w =
  (Return (map (fun o => nth (Z.to_nat ((Z.of_nat k + o) mod 12)) NOTES ""%string)
               (if (mode =? "major")%string then MAJOR_OFFSETS else MINOR_OFFSETS)), w).
Proof.
  intros Hk. unfold build_scale.
  do 12 (destruct k as [| k];
         [ injection Hk as <-; destruct (mode =? "major")%string; reflexivity |]).
  destruct k; discriminate Hk.
Qed.

Lemma random_choice_run {A : Type} (l : list A) (d : A) (w : world) :
  l <> [] ->
  random_choice l w = (Return (nth (draw w (List.length l)) l d), advance w).
Proof.
  intros Hl. destruct l as [| x t]; [contradiction |].
  unfold random_choice.
  assert (Hlt : (draw w (List.length (x :: t)) < List.length (x :: t))%nat).
  { apply Nat.mod_upper_bound. discriminate. }
  unfold bind, randbelow. fold (draw w (List.length (x :: t))). fold (advance w).
  apply getitem_nat. exact Hlt.
Qed.

Lemma degree_to_chord_run (scale : list string) (d : Z) (mode : string) (w : world) :
  List.length scale = 7%nat -> 1 <= d <= 7 ->
  degree_to_chord scale d mode w =
  (Return (chord_name
             (nth (Z.to_nat (d - 1)) scale ""%string)
             (nth (Z.to_nat (d - 1))
                  (if (mode =? "major")%string then MAJOR_QUALITIES else MINOR_QUALITIES)
                  ""%string)), w).
Proof.
  intros Hlen Hd. unfold degree_to_chord.
  destruct (Z.ltb_spec d 1) as [Hlo | _]; [lia |].
  destruct (Z.gtb_spec d 7) as [Hhi | _]; [lia |].
  cbn [orb].
  rewrite (bind_run _ _ w w _ (getitem_in_range scale (d - 1) ""%string w
             ltac:(unfold len; lia))).
  assert (Hq : 0 <= d - 1 <
    len (if (mode =? "major")%string then MAJOR_QUALITIES else MINOR_QUALITIES)).
  { destruct (mode =? "major")%string; unfold len; cbn; lia. }
  rewrite (bind_run _ _ w w _ (getitem_in_range _ (d - 1) ""%string w Hq)).
  reflexivity.
Qed.

Lemma degree_to_chord_out_of_range (scale : list string) (d : Z) (mode : string)
      (w : world) :
  d < 1 \/ 7 < d -> degree_to_chord scale d mode w = (Raise ValueError, w).
Proof.
  intros Hd. unfold degree_to_chord.
  destruct (Z.ltb_spec d 1) as [Hlo | Hlo]; [reflexivity |].
  destruct (Z.gtb_spec d 7) as [Hhi | Hhi]; [reflexivity | lia].
Qed.

Lemma comprehension_run {A B : Type} (f : A -> M B) (g : A -> B) (P : A -> Prop)
      (l : list A) (w : world) :
  (forall x w0, P x -> f x w0 = (Return (g x), w0)) ->
  Forall P l ->
  comprehension f l w = (Return (map g l), w).
Proof.
  intros Hf Hl. induction Hl as [| x t Hx Ht IH]; cbn [comprehension map].
  - reflexivity.
  - rewrite (bind_run _ _ w w _ (Hf x w Hx)).
    rewrite (bind_run _ _ w w _ IH). reflexivity.
Qed.

Lemma append_assoc (a b c : string) : ((a ++ b) ++ c)%string = (a ++ (b ++ c))%string.
Proof. induction a as [| ch a IH]; cbn; [reflexivity | now rewrite IH]. Qed.

Lemma pick_key_and_mode_run (w : world) :
  pick_key_and_mode w =
  (Return (nth (draw w 12) NOTES ""%string,
           nth (draw (advance w) 2) ["major"; "minor"]%string ""%string),
   advance (advance w)).
Proof.
  unfold pick_key_and_mode.
  rewrite (bind_run _ _ _ _ _ (random_choice_run NOTES ""%string w ltac:(discriminate))).
  rewrite (bind_run _ _ _ _ _
             (random_choice_run ["major"; "minor"]%string ""%string (advance w)
                                ltac:(discriminate))).
  reflexivity.
Qed.

Lemma pick_progression_run (mode : string) (w : world) :
  pick_progression mode w =
  (Return (nth (draw w 4)
               (if (mode =? "major")%string then MAJOR_PROGRESSIONS
                else MINOR_PROGRESSIONS) ([], [])),
   advance w).
Proof.
  unfold pick_progression.
  destruct (mode =? "major")%string.
  - exact (random_choice_run MAJOR_PROGRESSIONS ([], []) w ltac:(discriminate)).
  - exact (random_choice_run MINOR_PROGRESSIONS ([], []) w ltac:(discriminate)).
Qed.


Lemma NOTES_index (k : nat) (r : string) (w : world) :
  nth_error NOTES k = Some r -> list_index NOTES r w = (Return (Z.of_nat k), w).
Proof.
  intros Hk.
  do 12 (destruct k as [| k]; [injection Hk as <-; reflexivity |]).
  destruct k; discriminate Hk.
Qed.

Lemma scale_follows_offsets (offsets : list Z) (k : nat) :
  List.length offsets = 7%nat ->
  (k < 12)%nat ->
  follows_offsets offsets k
    (map (fun o => nth (Z.to_nat ((Z.of_nat k + o) mod 12)) NOTES ""%string) offsets).
Proof.
  intros Hlen Hk i Hi. unfold note_at.
  rewrite nth_error_map.
  rewrite (nth_error_nth' offsets 0) by lia. cbn [option_map].
  symmetry. apply nth_error_nth'.
  change (List.length NOTES) with 12%nat.
  pose proof (Z.mod_pos_bound (Z.of_nat k + nth i offsets 0) 12 ltac:(lia)). lia.
Qed.

Lemma scale_notes (offsets : list Z) (k : nat) :
  Forall (fun n => In n NOTES)
    (map (fun o => nth (Z.to_nat ((Z.of_nat k + o) mod 12)) NOTES ""%string) offsets).
Proof.
  apply Forall_forall. intros n Hn.
  apply in_map_iff in Hn. destruct Hn as [o [<- _]].
  apply nth_In. change (List.length NOTES) with 12%nat.
  pose proof (Z.mod_pos_bound (Z.of_nat k + o) 12 ltac:(lia)). lia.
Qed.

Lemma progressions_in_range :
  Forall (fun t : list string * list Z => Forall degree_in_range (snd t))
         (MAJOR_PROGRESSIONS ++ MINOR_PROGRESSIONS).
Proof. repeat constructor; unfold degree_in_range; lia. Qed.

Lemma draw_lt (w : world) (n : nat) : n <> 0%nat -> (draw w n < n)%nat.
Proof. intros Hn. unfold draw. apply Nat.mod_upper_bound. exact Hn. Qed.

Lemma rendering_has_five_lines (k m j : nat) :
  (k < 12)%nat -> (m < 2)%nat -> (j < 4)%nat ->
  let root := nth k NOTES ""%string in
  let mode := nth m ["major"; "minor"]%string ""%string in
  let template := nth j (if (mode =? "major")%string then MAJOR_PROGRESSIONS
                         else MINOR_PROGRESSIONS) ([], []) in
  let scale := map (fun o => nth (Z.to_nat ((Z.of_nat k + o) mod 12)) NOTES ""%string)
                   (if (mode =? "major")%string then MAJOR_OFFSETS
                    else MINOR_OFFSETS) in
  let chords := map (fun d => chord_name
                     (nth (Z.to_nat (d - 1)) scale ""%string)
                     (nth (Z.to_nat (d - 1))
                          (if (mode =? "major")%string then MAJOR_QUALITIES
                           else MINOR_QUALITIES) ""%string)) (snd template) in
  line_feeds (unlines ["Random Chord Progression Generator";
                       "Key: " ++ root ++ " " ++ mode;
                       "Progression: " ++ join " " (fst template);
                       "Chords: " ++ join " " chords;
                       "Tip: Try 4 beats per chord."]%string) = 5%nat.
Proof.
  intros Hk Hm Hj.
  do 12 (destruct k as [| k];
         [do 2 (destruct m as [| m];
                [do 4 (destruct j as [| j]; [vm_compute; reflexivity |]); lia |]);
          lia |]).
  lia.
Qed.

Lemma generate_progression_run (w : world) :
  exists (k : nat) (root mode : string) (roman : list string) (degrees : list Z)
         (scale chords : list string),
    nth_error NOTES k = Some root /\
    (mode = "major"%string /\ In (roman, degrees) MAJOR_PROGRESSIONS \/
     mode = "minor"%string /\ In (roman, degrees) MINOR_PROGRESSIONS) /\
    pick_key_and_mode w = (Return (root, mode), advance (advance w)) /\
    pick_progression mode (advance (advance w))
    = (Return (roman, degrees), advance (advance (advance w))) /\
    (forall w0, build_scale root mode w0 = (Return scale, w0)) /\
    (forall w0, comprehension (fun d => degree_to_chord scale d mode) degrees w0
                = (Return chords, w0)) /\
    generate_progression w =
    (Return tt,
     {| entropy := entropy w;
        cursor := S (S (S (cursor w)));
        stdout := (stdout w ++
                   unlines ["Random Chord Progression Generator";
                            "Key: " ++ root ++ " " ++ mode;
                            "Progression: " ++ join " " roman;
                            "Chords: " ++ join " " chords;
                            "Tip: Try 4 beats per chord."])%string |}) /\
    line_feeds (unlines ["Random Chord Progression Generator";
                         "Key: " ++ root ++ " " ++ mode;
                         "Progression: " ++ join " " roman;
                         "Chords: " ++ join " " chords;
                         "Tip: Try 4 beats per chord."]%string) = 5%nat.
Proof.
  pose (k := draw w 12).
  pose (root := nth k NOTES ""%string).
  pose (mode := nth (draw (advance w) 2) ["major"; "minor"]%string ""%string).
  pose (template := nth (draw (advance (advance w)) 4)
                        (if (mode =? "major")%string then MAJOR_PROGRESSIONS
                         else MINOR_PROGRESSIONS) ([], [])).
  pose (scale := map (fun o => nth (Z.to_nat ((Z.of_nat k + o) mod 12)) NOTES ""%string)
                     (if (mode =? "major")%string then MAJOR_OFFSETS
                      else MINOR_OFFSETS)).
  pose (chords := map (fun d => chord_name
                     (nth (Z.to_nat (d - 1)) scale ""%string)
                     (nth (Z.to_nat (d - 1))
                          (if (mode =? "major")%string then MAJOR_QUALITIES
                           else MINOR_QUALITIES) ""%string)) (snd template)).
  assert (Hk : nth_error NOTES k = Some root).
  { apply nth_error_nth'. apply (draw_lt w 12). discriminate. }
  assert (Hmode : mode = "major"%string \/ mode = "minor"%string).
  { pose proof (draw_lt (advance w) 2 ltac:(discriminate)) as Hlt. unfold mode.
    destruct (draw (advance w) 2) as [| [| n]]; [left | right | lia]; reflexivity. }
  assert (Hin : mode = "major"%string /\ In template MAJOR_PROGRESSIONS \/
                mode = "minor"%string /\ In template MINOR_PROGRESSIONS).
  { pose proof (draw_lt (advance (advance w)) 4 ltac:(discriminate)) as Hlt.
    unfold template.
    destruct Hmode as [E | E]; rewrite E; [left | right];
      (split; [reflexivity | apply nth_In; exact Hlt]). }
  assert (Hdeg : Forall degree_in_range (snd template)).
  { pose proof progressions_in_range as Hall. rewrite Forall_forall in Hall.
    apply Hall. apply in_or_app. tauto. }
  assert (Hlen : List.length scale = 7%nat).
  { unfold scale. rewrite length_map. destruct (mode =? "major")%string; reflexivity. }
  assert (Hchords : forall w0,
             comprehension (fun d => degree_to_chord scale d mode) (snd template) w0
             = (Return chords, w0)).
  { intros w0. apply (comprehension_run _ _ degree_in_range); [| exact Hdeg].
    intros d w1 Hd. apply degree_to_chord_run; assumption. }
  exists k, root, mode, (fst template), (snd template), scale, chords.
  rewrite <- surjective_pairing.
  split; [exact Hk |]. split; [exact Hin |].
  split; [apply pick_key_and_mode_run |].
  split; [apply pick_progression_run |].
  split; [intros w0; apply build_scale_run, Hk |].
  split; [exact Hchords |].
  split;
    [| apply (rendering_has_five_lines
                (draw w 12) (draw (advance w) 2) (draw (advance (advance w)) 4));
       apply draw_lt; discriminate].
  unfold generate_progression.
  rewrite (bind_run _ _ _ _ _ (pick_key_and_mode_run w)).
  fold k root mode.
  rewrite (bind_run _ _ _ _ _ (build_scale_run k root mode _ Hk)).
  fold scale.
  rewrite (bind_run _ _ _ _ _ (pick_progression_run mode _)).
  fold template.
  destruct template as [roman degrees]. cbn [fst snd] in *.
  rewrite (bind_run _ _ _ _ _ (Hchords _)).
  unfold bind, print, advance, unlines. cbn [entropy cursor stdout map String.concat].
  rewrite !append_assoc. reflexivity.
Qed.

Lemma getitem_raises_IndexError {A : Type} (l : list A) (i : Z) (w w' : world) (e : exn) :
  getitem l i w = (Raise e, w') -> e = IndexError.
Proof.
  unfold getitem, raise, ret.
  destruct (_ || _); [intros [= <- _]; reflexivity |].
  destruct (nth_error _ _); [discriminate | intros [= <- _]; reflexivity].
Qed.

Lemma degree_to_chord_in_range_no_ValueError
      (scale : list string) (d : Z) (mode : string) (w : world) :
  degree_in_range d -> fst (degree_to_chord scale d mode w) <> Raise ValueError.
Proof.
  unfold degree_in_range. intros Hd. unfold degree_to_chord.
  destruct (Z.ltb_spec d 1) as [Hlo | _]; [lia |].
  destruct (Z.gtb_spec d 7) as [Hhi | _]; [lia |].
  cbn [orb]. unfold bind.
  destruct (getitem scale (d - 1) w) as [[note | e] w1] eqn:Hnote.
  - destruct (getitem _ (d - 1) w1) as [[q | e] w2] eqn:Hq.
    + discriminate.
    + apply getitem_raises_IndexError in Hq. subst e. discriminate.
  - apply getitem_raises_IndexError in Hnote. subst e. discriminate.
Qed.

Lemma known_quality_no_fallback (q : string) :
  known_quality q <-> reaches_fallback q = false.
Proof.
  unfold known_quality, reaches_fallback.
  destruct (String.eqb_spec q "maj") as [-> | N1]; [cbn; tauto |].
  destruct (String.eqb_spec q "min") as [-> | N2]; [cbn; tauto |].
  destruct (String.eqb_spec q "dim") as [-> | N3]; [cbn; tauto |].
  cbn. split; [tauto | discriminate].
Qed.

Lemma quality_tables_known :
  Forall known_quality MAJOR_QUALITIES /\ Forall known_quality MINOR_QUALITIES.
Proof.
  split; repeat (apply Forall_cons; [unfold known_quality; auto |]);
    apply Forall_nil.
Qed.

Lemma Return_inj {A : Type} (a a' : A) (w w' : world) :
  (Return a, w) = (Return a', w') -> a = a'.
Proof. intros H. injection H as -> _. reflexivity. Qed.

Lemma template_uses_plain_qualities (mode : string) (roman : list string)
      (degrees : list Z) :
  In (roman, degrees) (if (mode =? "major")%string then MAJOR_PROGRESSIONS
                       else MINOR_PROGRESSIONS) ->
  List.length roman = 4%nat /\ List.length degrees = 4%nat /\
  Forall (fun d => degree_in_range d /\
                   let q := nth (Z.to_nat (d - 1))
                                (if (mode =? "major")%string then MAJOR_QUALITIES
                                 else MINOR_QUALITIES) ""%string in
                   q = "maj"%string \/ q = "min"%string) degrees.
Proof.
  intros Hin. unfold degree_in_range.
  destruct (mode =? "major")%string; cbn [In MAJOR_PROGRESSIONS MINOR_PROGRESSIONS] in Hin;
    repeat (destruct Hin as [[= <- <-] | Hin];
            [split; [reflexivity |]; split; [reflexivity |];
             repeat (apply Forall_cons;
                     [split; [lia | cbv; first [left; reflexivity | right; reflexivity]] |]);
             apply Forall_nil |]);
    contradiction.
Qed.

(** ** The claims *)

(** C1. For a root [r] at position [k] of the twelve [NOTES] and a mode among
    "major" and "minor", [build_scale r mode] returns, without touching the
    world, a scale of exactly 7 pitch classes whose [i]-th element is the
    pitch class at position [(k + OFFSETS[i]) mod 12], with [MAJOR_OFFSETS]
    for "major" and [MINOR_OFFSETS] for "minor"; [k] is the position that
    [NOTES.index(r)] finds, every element is one of [NOTES], and the first
    element is [r]. *)
Theorem build_scale_follows_offsets (k : nat) (r mode : string) (w : world) :
  nth_error NOTES k = Some r ->
  mode = "major"%string \/ mode = "minor"%string ->
  exists scale : list string,
    build_scale r mode w = (Return scale, w) /\
    list_index NOTES r w = (Return (Z.of_nat k), w) /\
    List.length scale = 7%nat /\
    (mode = "major"%string -> follows_offsets MAJOR_OFFSETS k scale) /\
    (mode = "minor"%string -> follows_offsets MINOR_OFFSETS k scale) /\
    Forall (fun n => In n NOTES) scale /\
    nth_error scale 0 = Some r.
Proof.
  intros Hk Hmode.
  assert (Hlt : (k < 12)%nat).
  { change 12%nat with (List.length NOTES). apply nth_error_Some. congruence. }
  eexists. split; [apply (build_scale_run k r mode w Hk) |].
  split; [apply NOTES_index, Hk |].
  split; [destruct Hmode as [-> | ->]; reflexivity |].
  split; [| split; [| split]].
  - intros ->. apply scale_follows_offsets; [reflexivity | exact Hlt].
  - intros ->. apply scale_follows_offsets; [reflexivity | exact Hlt].
  - apply scale_notes.
  - destruct Hmode as [-> | ->]; cbn [String.eqb Ascii.eqb Bool.eqb map MAJOR_OFFSETS
      MINOR_OFFSETS nth_error];
      rewrite Z.add_0_r, Z.mod_small, Nat2Z.id by lia;
      rewrite <- Hk; symmetry; apply nth_error_nth'; exact Hlt.
Qed.

Lemma build_scale_follows_offsets_witness :
  nth_error NOTES 9 = Some "A"%string /\
  ("minor"%string = "major"%string \/ "minor"%string = "minor"%string) /\
  exists scale : list string,
    build_scale "A" "minor" sample_world = (Return scale, sample_world) /\
    list_index NOTES "A" sample_world = (Return 9, sample_world) /\
    List.length scale = 7%nat /\
    ("minor"%string = "major"%string -> follows_offsets MAJOR_OFFSETS 9 scale) /\
    ("minor"%string = "minor"%string -> follows_offsets MINOR_OFFSETS 9 scale) /\
    Forall (fun n => In n NOTES) scale /\
    nth_error scale 0 = Some "A"%string.
Proof.
  split; [reflexivity |]. split; [right; reflexivity |].
  apply (build_scale_follows_offsets 9 "A" "minor" sample_world).
  - reflexivity.
  - right. reflexivity.
Defined.

(** C2. On a 7-element scale and for any mode, [degree_to_chord] returns a
    chord for every degree in 1..7, and it raises exactly when the degree is
    outside [1,7]; the exception is then the [ValueError] of its range check
    (the module's out-of-range error).  In particular it raises for degrees
    0 and 8. *)
Theorem degree_to_chord_raises_iff
        (scale : list string) (d : Z) (mode : string) (w : world) :
  List.length scale = 7%nat ->
  (degree_in_range d ->
   exists c : string, degree_to_chord scale d mode w = (Return c, w)) /\
  (forall e : exn,
      fst (degree_to_chord scale d mode w) = Raise e <->
      e = ValueError /\ ~ degree_in_range d) /\
  degree_to_chord scale 0 mode w = (Raise ValueError, w) /\
  degree_to_chord scale 8 mode w = (Raise ValueError, w).
Proof.
  intros Hlen. unfold degree_in_range.
  split; [| split; [| split]].
  - intros Hd. eexists. apply degree_to_chord_run; assumption.
  - intros e. destruct (Z_le_dec 1 d) as [Hlo | Hlo];
      [destruct (Z_le_dec d 7) as [Hhi | Hhi] |].
    + rewrite (degree_to_chord_run scale d mode w Hlen (conj Hlo Hhi)). cbn [fst].
      split; [discriminate | intros [_ Hn]; exfalso; apply Hn; lia].
    + rewrite degree_to_chord_out_of_range by lia. cbn [fst].
      split; [intros [= <-]; split; [reflexivity | lia] | intros [-> _]; reflexivity].
    + rewrite degree_to_chord_out_of_range by lia. cbn [fst].
      split; [intros [= <-]; split; [reflexivity | lia] | intros [-> _]; reflexivity].
  - apply degree_to_chord_out_of_range. lia.
  - apply degree_to_chord_out_of_range. lia.
Qed.

Lemma degree_to_chord_raises_iff_witness :
  List.length ["C"; "D"; "E"; "F"; "G"; "A"; "B"]%string = 7%nat /\
  (degree_in_range 2 ->
   exists c : string,
     degree_to_chord ["C"; "D"; "E"; "F"; "G"; "A"; "B"]%string 2 "major" sample_world
     = (Return c, sample_world)) /\
  (forall e : exn,
      fst (degree_to_chord ["C"; "D"; "E"; "F"; "G"; "A"; "B"]%string 2 "major"
             sample_world) = Raise e <->
      e = ValueError /\ ~ degree_in_range 2) /\
  degree_to_chord ["C"; "D"; "E"; "F"; "G"; "A"; "B"]%string 0 "major" sample_world
  = (Raise ValueError, sample_world) /\
  degree_to_chord ["C"; "D"; "E"; "F"; "G"; "A"; "B"]%string 8 "major" sample_world
  = (Raise ValueError, sample_world).
Proof.
  split; [reflexivity |].
  apply (degree_to_chord_raises_iff
           ["C"; "D"; "E"; "F"; "G"; "A"; "B"]%string 2 "major" sample_world).
  reflexivity.
Defined.

(** C3. [chord_name p quality] is [p] alone for quality "maj", [p] followed
    by "m" for "min", [p] followed by "dim" for "dim", and the bare [p] for
    every other quality. *)
Theorem chord_name_cases (p quality : string) :
  (quality = "maj"%string -> chord_name p quality = p) /\
  (quality = "min"%string -> chord_name p quality = (p ++ "m")%string) /\
  (quality = "dim"%string -> chord_name p quality = (p ++ "dim")%string) /\
  (~ known_quality quality -> chord_name p quality = p).
Proof.
  unfold chord_name, known_quality.
  repeat split; try (intros ->; reflexivity).
  intros Hq.
  destruct (String.eqb_spec quality "maj") as [E | _]; [tauto |].
  destruct (String.eqb_spec quality "min") as [E | _]; [tauto |].
  destruct (String.eqb_spec quality "dim") as [E | _]; [tauto |].
  reflexivity.
Qed.

Lemma chord_name_cases_witness :
  chord_name "B" "dim" = "Bdim"%string /\ chord_name "B" "sus4" = "B"%string.
Proof.
  split.
  - apply (chord_name_cases "B" "dim"). reflexivity.
  - apply (chord_name_cases "B" "sus4"). unfold known_quality.
    intros [H | [H | H]]; discriminate H.
Defined.

(** C4. In C major the scale is C D E F G A B, degrees 1, 2, 5 and 6 give the
    chords C, Dm, G and Am, and the degrees [1,5,6,4] render to C G Am F; in
    A minor the scale is A B C D E F G, degree 1 gives Am and degree 6
    gives F. *)
Theorem c_major_and_a_minor_scenarios (w : world) :
  let c_major := ["C"; "D"; "E"; "F"; "G"; "A"; "B"]%string in
  let a_minor := ["A"; "B"; "C"; "D"; "E"; "F"; "G"]%string in
  build_scale "C" "major" w = (Return c_major, w) /\
  degree_to_chord c_major 1 "major" w = (Return "C"%string, w) /\
  degree_to_chord c_major 2 "major" w = (Return "Dm"%string, w) /\
  degree_to_chord c_major 5 "major" w = (Return "G"%string, w) /\
  degree_to_chord c_major 6 "major" w = (Return "Am"%string, w) /\
  comprehension (fun d => degree_to_chord c_major d "major") [1; 5; 6; 4] w
  = (Return ["C"; "G"; "Am"; "F"]%string, w) /\
  build_scale "A" "minor" w = (Return a_minor, w) /\
  degree_to_chord a_minor 1 "minor" w = (Return "Am"%string, w) /\
  degree_to_chord a_minor 6 "minor" w = (Return "F"%string, w).
Proof. repeat split. Qed.

(** C5. Every degree of every template of [MAJOR_PROGRESSIONS] and of
    [MINOR_PROGRESSIONS] lies in 1..7; so [degree_to_chord] never raises its
    range-check [ValueError] on a degree of a template, and every run of the
    orchestrator returns normally. *)
Theorem progression_degrees_in_range :
  Forall (fun t : list string * list Z => Forall degree_in_range (snd t))
         MAJOR_PROGRESSIONS /\
  Forall (fun t : list string * list Z => Forall degree_in_range (snd t))
         MINOR_PROGRESSIONS /\
  (forall (t : list string * list Z) (d : Z) (scale : list string) (mode : string)
          (w : world),
      In t (MAJOR_PROGRESSIONS ++ MINOR_PROGRESSIONS) -> In d (snd t) ->
      fst (degree_to_chord scale d mode w) <> Raise ValueError) /\
  (forall w : world, fst (generate_progression w) = Return tt).
Proof.
  pose proof progressions_in_range as Hall.
  split; [| split; [| split]].
  - apply Forall_app in Hall. apply Hall.
  - apply Forall_app in Hall. apply Hall.
  - intros t d scale mode w Ht Hd.
    apply degree_to_chord_in_range_no_ValueError.
    rewrite Forall_forall in Hall. specialize (Hall t Ht).
    rewrite Forall_forall in Hall. apply Hall, Hd.
  - intros w.
    destruct (generate_progression_run w)
      as (k & root & mode & roman & degrees & scale & chords & H).
    destruct H as (_ & _ & _ & _ & _ & _ & Hrun & _).
    rewrite Hrun. reflexivity.
Qed.

Lemma progression_degrees_in_range_witness :
  fst (degree_to_chord ["C"; "D"; "E"; "F"; "G"; "A"; "B"]%string 5 "major"
         sample_world) <> Raise ValueError.
Proof.
  apply (proj1 (proj2 (proj2 progression_degrees_in_range))
           (["I"; "V"; "vi"; "IV"]%string, [1; 5; 6; 4])).
  - cbn. left. reflexivity.
  - cbn. right. left. reflexivity.
Defined.

(** C6. [MAJOR_QUALITIES] and [MINOR_QUALITIES] hold only "maj", "min" and
    "dim"; so for every degree in 1..7 and every mode the quality that
    [degree_to_chord] looks up is one of the three, and whenever
    [degree_to_chord] returns a chord it is [chord_name] of a quality that
    does not reach the fallback return. *)
Theorem quality_tables_closed :
  Forall known_quality MAJOR_QUALITIES /\
  Forall known_quality MINOR_QUALITIES /\
  (forall q : string, known_quality q <-> reaches_fallback q = false) /\
  (forall (d : Z) (mode : string) (w : world),
      degree_in_range d ->
      exists q : string,
        getitem (if (mode =? "major")%string then MAJOR_QUALITIES
                 else MINOR_QUALITIES) (d - 1) w = (Return q, w) /\
        known_quality q) /\
  (forall (scale : list string) (d : Z) (mode : string) (w w' : world) (c : string),
      degree_to_chord scale d mode w = (Return c, w') ->
      exists note q : string,
        getitem scale (d - 1) w = (Return note, w) /\
        getitem (if (mode =? "major")%string then MAJOR_QUALITIES
                 else MINOR_QUALITIES) (d - 1) w = (Return q, w) /\
        known_quality q /\ reaches_fallback q = false /\
        c = chord_name note q).
Proof.
  destruct quality_tables_known as [Hmaj Hmin].
  assert (Hlookup : forall (d : Z) (mode : string) (w : world),
             degree_in_range d ->
             exists q : string,
               getitem (if (mode =? "major")%string then MAJOR_QUALITIES
                        else MINOR_QUALITIES) (d - 1) w = (Return q, w) /\
               known_quality q).
  { intros d mode w Hd. unfold degree_in_range in Hd.
    rewrite Forall_forall in Hmaj, Hmin.
    destruct (mode =? "major")%string.
    - exists (nth (Z.to_nat (d - 1)) MAJOR_QUALITIES ""%string). split.
      + apply getitem_in_range. unfold len. cbn. lia.
      + apply Hmaj, nth_In. cbn. lia.
    - exists (nth (Z.to_nat (d - 1)) MINOR_QUALITIES ""%string). split.
      + apply getitem_in_range. unfold len. cbn. lia.
      + apply Hmin, nth_In. cbn. lia. }
  split; [exact Hmaj |]. split; [exact Hmin |].
  split; [exact known_quality_no_fallback |].
  split; [exact Hlookup |].
  intros scale d mode w w' c Hrun.
  assert (Hd : degree_in_range d).
  { unfold degree_in_range.
    destruct (Z_lt_dec d 1) as [Hlo | Hlo];
      [rewrite degree_to_chord_out_of_range in Hrun by lia; discriminate |].
    destruct (Z_lt_dec 7 d) as [Hhi | Hhi];
      [rewrite degree_to_chord_out_of_range in Hrun by lia; discriminate |].
    lia. }
  destruct (Hlookup d mode w Hd) as [q [Hq Hknown]].
  destruct (pure_getitem scale (d - 1)) as [r Hr].
  unfold degree_to_chord in Hrun. unfold degree_in_range in Hd.
  destruct (Z.ltb_spec d 1) as [Hlo | _]; [lia |].
  destruct (Z.gtb_spec d 7) as [Hhi | _]; [lia |].
  cbn [orb] in Hrun.
  destruct r as [note | e].
  - rewrite (bind_run _ _ _ _ _ (Hr w)) in Hrun.
    rewrite (bind_run _ _ _ _ _ Hq) in Hrun.
    injection Hrun as <- _.
    exists note, q. split; [apply Hr |]. split; [exact Hq |].
    split; [exact Hknown |]. split; [apply known_quality_no_fallback, Hknown |].
    reflexivity.
  - rewrite (bind_raise _ _ _ _ _ (Hr w)) in Hrun. discriminate.
Qed.

Lemma quality_tables_closed_witness :
  exists q : string,
    getitem (if ("minor" =? "major")%string then MAJOR_QUALITIES
             else MINOR_QUALITIES) (2 - 1) sample_world = (Return q, sample_world) /\
    known_quality q.
Proof.
  apply (proj1 (proj2 (proj2 (proj2 quality_tables_closed))) 2 "minor" sample_world).
  unfold degree_in_range. lia.
Defined.

(** C7. Each progression table holds 4 templates, and in every template of
    both tables the roman numerals and the degrees are sequences of the same
    length, 4. *)
Theorem progression_tables_shape :
  List.length MAJOR_PROGRESSIONS = 4%nat /\
  List.length MINOR_PROGRESSIONS = 4%nat /\
  Forall (fun t : list string * list Z =>
            List.length (fst t) = List.length (snd t) /\ List.length (fst t) = 4%nat)
         (MAJOR_PROGRESSIONS ++ MINOR_PROGRESSIONS).
Proof. repeat split; repeat constructor. Qed.

(** C8. [build_scale] and [degree_to_chord] are deterministic and do not
    consult the random source: run in any two worlds (any two random sources
    at any positions) with the same arguments they give the same outcome,
    and each leaves the world, the position in the random source included,
    as it was. *)
Theorem scale_and_chord_deterministic
        (root mode : string) (scale : list string) (degree : Z) (w1 w2 : world) :
  fst (build_scale root mode w1) = fst (build_scale root mode w2) /\
  snd (build_scale root mode w1) = w1 /\
  fst (degree_to_chord scale degree mode w1)
  = fst (degree_to_chord scale degree mode w2) /\
  snd (degree_to_chord scale degree mode w1) = w1.
Proof.
  destruct (pure_build_scale root mode) as [r Hr].
  destruct (pure_degree_to_chord scale degree mode) as [r' Hr'].
  rewrite !Hr, !Hr'. repeat split.
Qed.

(** C9. Every run of the orchestrator returns normally after three draws and
    appends to standard output exactly five lines, in this order: the banner
    "Random Chord Progression Generator"; "Key: <root> <mode>" with the mode
    "major" or "minor" and the root one of [NOTES], as drawn by
    [pick_key_and_mode]; "Progression: " followed by the four roman numerals,
    separated by single spaces, of the template drawn by [pick_progression]
    from the mode's table; "Chords: " followed by four chords separated by
    single spaces, the chord at each position being the one
    [degree_to_chord] returns for the template's degree at that position on
    the scale [build_scale] returns for the key; and
    "Tip: Try 4 beats per chord.".  Each line ends with a line feed.  On
    the random source that draws 0, 1, 2, the run prints the key C minor,
    the progression i VII VI VII and the chords Cm A# G# A#. *)
Theorem generate_progression_output (w : world) :
  let lf := String (ascii_of_nat 10) EmptyString in
  (exists (root mode r1 r2 r3 r4 : string) (degrees : list Z)
          (scale : list string) (c1 c2 c3 c4 : string) (w' : world),
      In root NOTES /\
      (mode = "major"%string /\ In ([r1; r2; r3; r4], degrees) MAJOR_PROGRESSIONS \/
       mode = "minor"%string /\ In ([r1; r2; r3; r4], degrees) MINOR_PROGRESSIONS) /\
      fst (pick_key_and_mode w) = Return (root, mode) /\
      fst (pick_progression mode (snd (pick_key_and_mode w)))
      = Return ([r1; r2; r3; r4], degrees) /\
      build_scale root mode w = (Return scale, w) /\
      Forall2 (fun (d : Z) (c : string) =>
                 degree_to_chord scale d mode w = (Return c, w))
              degrees [c1; c2; c3; c4] /\
      comprehension (fun d => degree_to_chord scale d mode) degrees w
      = (Return [c1; c2; c3; c4], w) /\
      main w = (Return tt, w') /\
      entropy w' = entropy w /\
      cursor w' = (cursor w + 3)%nat /\
      stdout w' = (stdout w ++
                   "Random Chord Progression Generator" ++ lf ++
                   "Key: " ++ root ++ " " ++ mode ++ lf ++
                   "Progression: " ++ r1 ++ " " ++ r2 ++ " " ++ r3 ++ " " ++ r4 ++ lf ++
                   "Chords: " ++ c1 ++ " " ++ c2 ++ " " ++ c3 ++ " " ++ c4 ++ lf ++
                   "Tip: Try 4 beats per chord." ++ lf)%string /\
      line_feeds ("Random Chord Progression Generator" ++ lf ++
                  "Key: " ++ root ++ " " ++ mode ++ lf ++
                  "Progression: " ++ r1 ++ " " ++ r2 ++ " " ++ r3 ++ " " ++ r4 ++ lf ++
                  "Chords: " ++ c1 ++ " " ++ c2 ++ " " ++ c3 ++ " " ++ c4 ++ lf ++
                  "Tip: Try 4 beats per chord." ++ lf)%string = 5%nat) /\
  main sample_world
  = (Return tt,
     {| entropy := entropy sample_world;
        cursor := 3;
        stdout := ("Random Chord Progression Generator" ++ lf ++
                   "Key: C minor" ++ lf ++
                   "Progression: i VII VI VII" ++ lf ++
                   "Chords: Cm A# G# A#" ++ lf ++
                   "Tip: Try 4 beats per chord." ++ lf)%string |}).
Proof.
  intros lf. split; [| vm_compute; reflexivity].
  destruct (generate_progression_run w)
    as (k & root & mode & roman & degrees & scale & chords & H).
  destruct H as (Hk & Hin & Hkey & Hprog & Hscale & Hchords & Hrun & Hfive).
  assert (Htable : In (roman, degrees)
                      (if (mode =? "major")%string then MAJOR_PROGRESSIONS
                       else MINOR_PROGRESSIONS)).
  { destruct Hin as [[-> Ht] | [-> Ht]]; exact Ht. }
  destruct (template_uses_plain_qualities mode roman degrees Htable)
    as (Hroman & Hdegrees & Hplain).
  assert (Hrange : Forall degree_in_range degrees).
  { eapply Forall_impl; [| exact Hplain]. intros d [Hd _]. exact Hd. }
  assert (Hlen : List.length scale = 7%nat).
  { pose proof (Hscale w) as Hs. rewrite (build_scale_run k root mode w Hk) in Hs.
    apply Return_inj in Hs. rewrite <- Hs, length_map.
    destruct (mode =? "major")%string; reflexivity. }
  assert (Heach : Forall2 (fun (d : Z) (c : string) =>
                             degree_to_chord scale d mode w = (Return c, w))
                          degrees chords).
  { pose proof (Hchords w) as Hc.
    rewrite (comprehension_run _
               (fun d => chord_name (nth (Z.to_nat (d - 1)) scale ""%string)
                           (nth (Z.to_nat (d - 1))
                                (if (mode =? "major")%string then MAJOR_QUALITIES
                                 else MINOR_QUALITIES) ""%string))
               degree_in_range degrees w) in Hc;
      [| intros d w0 Hd; apply degree_to_chord_run; assumption | exact Hrange].
    apply Return_inj in Hc. rewrite <- Hc. clear - Hrange Hlen.
    induction Hrange as [| d t Hd Ht IH]; cbn [map]; constructor.
    - apply degree_to_chord_run; assumption.
    - exact IH. }
  assert (Hfour : List.length chords = 4%nat).
  { rewrite <- (Forall2_length Heach). exact Hdegrees. }
  destruct roman as [| r1 [| r2 [| r3 [| r4 [| r5 roman]]]]]; try discriminate Hroman.
  destruct chords as [| c1 [| c2 [| c3 [| c4 [| c5 chords]]]]]; try discriminate Hfour.
  assert (Htext :
    unlines ["Random Chord Progression Generator";
             "Key: " ++ root ++ " " ++ mode;
             "Progression: " ++ join " " [r1; r2; r3; r4];
             "Chords: " ++ join " " [c1; c2; c3; c4];
             "Tip: Try 4 beats per chord."]%string
    = ("Random Chord Progression Generator" ++ lf ++
       "Key: " ++ root ++ " " ++ mode ++ lf ++
       "Progression: " ++ r1 ++ " " ++ r2 ++ " " ++ r3 ++ " " ++ r4 ++ lf ++
       "Chords: " ++ c1 ++ " " ++ c2 ++ " " ++ c3 ++ " " ++ c4 ++ lf ++
       "Tip: Try 4 beats per chord." ++ lf)%string).
  { unfold unlines, join. cbn [map String.concat].
    rewrite !append_assoc. reflexivity. }
  rewrite Htext in Hrun, Hfive.
  exists root, mode, r1, r2, r3, r4, degrees, scale, c1, c2, c3, c4.
  eexists.
  split; [eapply nth_error_In, Hk |].
  split; [exact Hin |].
  split; [rewrite Hkey; reflexivity |].
  split; [rewrite Hkey; cbn [snd]; rewrite Hprog; reflexivity |].
  split; [apply Hscale |].
  split; [exact Heach |].
  split; [apply Hchords |].
  split; [exact Hrun |].
  cbn [entropy cursor stdout].
  split; [reflexivity |]. split; [lia |]. split; [reflexivity | exact Hfive].
Qed.

(** C10. A mode string other than "major" is treated as minor by every
    operation and is never rejected: [build_scale] behaves as for "minor"
    and, on a root of [NOTES], returns the scale that follows
    [MINOR_OFFSETS]; [degree_to_chord] behaves as for "minor" and, on a
    7-element scale and a degree in 1..7, names the chord with the quality of
    [MINOR_QUALITIES]; [pick_progression] draws from [MINOR_PROGRESSIONS]. *)
Theorem non_major_mode_is_minor (mode : string) :
  mode <> "major"%string ->
  (forall (root : string) (w : world),
      build_scale root mode w = build_scale root "minor" w) /\
  (forall (k : nat) (r : string) (w : world),
      nth_error NOTES k = Some r ->
      exists scale : list string,
        build_scale r mode w = (Return scale, w) /\
        follows_offsets MINOR_OFFSETS k scale) /\
  (forall (scale : list string) (d : Z) (w : world),
      degree_to_chord scale d mode w = degree_to_chord scale d "minor" w) /\
  (forall (scale : list string) (d : Z) (w : world),
      List.length scale = 7%nat -> degree_in_range d ->
      degree_to_chord scale d mode w
      = (Return (chord_name (nth (Z.to_nat (d - 1)) scale ""%string)
                            (nth (Z.to_nat (d - 1)) MINOR_QUALITIES ""%string)), w)) /\
  (forall w : world, pick_progression mode w = random_choice MINOR_PROGRESSIONS w) /\
  (forall w : world,
      exists t : list string * list Z,
        In t MINOR_PROGRESSIONS /\ pick_progression mode w = (Return t, advance w)).
Proof.
  intros Hmode. apply String.eqb_neq in Hmode.
  split; [| split; [| split; [| split; [| split]]]].
  - intros root w. unfold build_scale. rewrite Hmode. reflexivity.
  - intros k r w Hk. eexists. split.
    + rewrite (build_scale_run k r mode w Hk). rewrite Hmode. reflexivity.
    + apply scale_follows_offsets; [reflexivity |].
      change 12%nat with (List.length NOTES). apply nth_error_Some. congruence.
  - intros scale d w. unfold degree_to_chord. rewrite Hmode. reflexivity.
  - intros scale d w Hlen Hd.
    rewrite (degree_to_chord_run scale d mode w Hlen Hd). rewrite Hmode. reflexivity.
  - intros w. unfold pick_progression. rewrite Hmode. reflexivity.
  - intros w. rewrite pick_progression_run, Hmode. eexists. split; [| reflexivity].
    apply nth_In. apply (draw_lt w 4). discriminate.
Qed.

Lemma non_major_mode_is_minor_witness :
  "dorian"%string <> "major"%string /\
  build_scale "A" "dorian" sample_world = build_scale "A" "minor" sample_world /\
  degree_to_chord ["A"; "B"; "C"; "D"; "E"; "F"; "G"]%string 6 "dorian" sample_world
  = (Return "F"%string, sample_world) /\
  pick_progression "dorian" sample_world
  = random_choice MINOR_PROGRESSIONS sample_world.
Proof.
  assert (Hmode : "dorian"%string <> "major"%string) by discriminate.
  destruct (non_major_mode_is_minor "dorian" Hmode) as (Hb & _ & _ & Hd & Hp & _).
  split; [exact Hmode |]. split; [apply Hb |]. split; [| apply Hp].
  apply (Hd ["A"; "B"; "C"; "D"; "E"; "F"; "G"]%string 6 sample_world).
  - reflexivity.
  - unfold degree_in_range. lia.
Defined.

(** ** Further properties of the module *)

Lemma index_from_absent (l : list string) (x : string) (i : Z) (w : world) :
  ~ In x l -> index_from l x i w = (Raise ValueError, w).
Proof.
  revert i. induction l as [| y t IH]; intros i Hx; cbn [index_from].
  - reflexivity.
  - destruct (String.eqb_spec y x) as [-> | _].
    + exfalso. apply Hx. left. reflexivity.
    + apply IH. intros Hin. apply Hx. right. exact Hin.
Qed.

Lemma build_scale_unknown_root (root mode : string) (w : world) :
  ~ In root NOTES -> build_scale root mode w = (Raise ValueError, w).
Proof.
  intros Hroot. unfold build_scale, list_index.
  apply bind_raise. apply index_from_absent. exact Hroot.
Qed.

Lemma build_scale_returns_known_root
      (root mode : string) (scale : list string) (w w' : world) :
  build_scale root mode w = (Return scale, w') -> In root NOTES.
Proof.
  intros Hrun. destruct (in_dec string_dec root NOTES) as [Hin | Hout].
  - exact Hin.
  - rewrite (build_scale_unknown_root root mode w Hout) in Hrun. discriminate.
Qed.

(** X1. [build_scale] accepts exactly the twelve names of [NOTES]: on any
    other root (a flat such as "Db", a lower-case name, the empty string) it
    raises the [ValueError] of [NOTES.index] whatever the mode, and writes
    and draws nothing; on a root of [NOTES] it returns a scale. *)
Theorem build_scale_root_checked (root mode : string) (w : world) :
  (~ In root NOTES -> build_scale root mode w = (Raise ValueError, w)) /\
  (In root NOTES <-> exists scale, build_scale root mode w = (Return scale, w)).
Proof.
  split; [apply build_scale_unknown_root |]. split.
  - intros Hin. apply In_nth_error in Hin. destruct Hin as [k Hk].
    eexists. apply (build_scale_run k root mode w Hk).
  - intros [scale Hrun]. apply (build_scale_returns_known_root _ _ _ _ _ Hrun).
Qed.

Lemma build_scale_root_checked_witness :
  build_scale "Db" "major" sample_world = (Raise ValueError, sample_world).
Proof.
  apply (proj1 (build_scale_root_checked "Db" "major" sample_world)).
  cbn. intros H. repeat (destruct H as [H | H]; [discriminate H |]). exact H.
Defined.

Lemma getitem_past_end {A : Type} (l : list A) (i : Z) (w : world) :
  len l <= i -> getitem l i w = (Raise IndexError, w).
Proof.
  intros Hi. unfold getitem. unfold len in *.
  destruct (Z.ltb_spec i 0) as [Hneg | _]; [lia |].
  destruct (Z.ltb_spec i 0) as [Hneg | _]; [lia |].
  destruct (Z.leb_spec (Z.of_nat (List.length l)) i) as [_ | Hlt]; [| lia].
  reflexivity.
Qed.

(** X2. [degree_to_chord] does not check the length of the scale it is
    given: for a degree in 1..7 it returns a chord exactly when the scale has
    at least that many notes, and on a shorter scale (the empty one included)
    the lookup [scale[degree - 1]] raises [IndexError]; notes past the
    degree are never looked at. *)
Theorem degree_to_chord_short_scale
        (scale : list string) (d : Z) (mode : string) (w : world) :
  degree_in_range d ->
  (len scale < d -> degree_to_chord scale d mode w = (Raise IndexError, w)) /\
  (d <= len scale ->
   forall rest : list string,
     degree_to_chord (firstn (Z.to_nat d) scale ++ rest) d mode w
     = degree_to_chord scale d mode w /\
     exists c, degree_to_chord scale d mode w = (Return c, w)).
Proof.
  unfold degree_in_range. intros Hd.
  assert (Hq : 0 <= d - 1 <
    len (if (mode =? "major")%string then MAJOR_QUALITIES else MINOR_QUALITIES)).
  { destruct (mode =? "major")%string; unfold len; cbn; lia. }
  assert (Hguard : (d <? 1) || (d >? 7) = false).
  { destruct (Z.ltb_spec d 1); [lia |]. destruct (Z.gtb_spec d 7); [lia |].
    reflexivity. }
  split.
  - intros Hshort. unfold degree_to_chord. rewrite Hguard.
    apply bind_raise. apply getitem_past_end. lia.
  - intros Hlong rest. unfold len in Hlong.
    assert (Hrun : forall s, nth_error s (Z.to_nat (d - 1)) <> None ->
               degree_to_chord s d mode w =
               (Return (chord_name (nth (Z.to_nat (d - 1)) s ""%string)
                   (nth (Z.to_nat (d - 1))
                      (if (mode =? "major")%string then MAJOR_QUALITIES
                       else MINOR_QUALITIES) ""%string)), w)).
    { intros s Hs. apply nth_error_Some in Hs.
      unfold degree_to_chord. rewrite Hguard.
      rewrite (bind_run _ _ w w _ (getitem_in_range s (d - 1) ""%string w
                 ltac:(unfold len; lia))).
      rewrite (bind_run _ _ w w _ (getitem_in_range _ (d - 1) ""%string w Hq)).
      reflexivity. }
    assert (Hs : nth_error scale (Z.to_nat (d - 1)) <> None).
    { apply nth_error_Some. lia. }
    assert (Hlen : List.length (firstn (Z.to_nat d) scale) = Z.to_nat d).
    { rewrite length_firstn. lia. }
    assert (Hf : nth_error (firstn (Z.to_nat d) scale ++ rest) (Z.to_nat (d - 1)) <> None).
    { apply nth_error_Some. rewrite length_app. lia. }
    rewrite (Hrun _ Hf), (Hrun _ Hs). split; [| eexists; reflexivity].
    do 3 f_equal.
    rewrite app_nth1 by lia.
    rewrite <- (firstn_skipn (Z.to_nat d) scale) at 2.
    rewrite app_nth1 by lia. reflexivity.
Qed.

Lemma degree_to_chord_short_scale_witness :
  degree_in_range 3 /\
  len ["C"; "D"]%string < 3 /\
  degree_to_chord ["C"; "D"]%string 3 "major" sample_world
  = (Raise IndexError, sample_world).
Proof.
  assert (Hd : degree_in_range 3) by (unfold degree_in_range; lia).
  assert (Hlen : len ["C"; "D"]%string < 3) by (unfold len; cbn; lia).
  split; [exact Hd |]. split; [exact Hlen |].
  exact (proj1 (degree_to_chord_short_scale
                  ["C"; "D"]%string 3 "major" sample_world Hd) Hlen).
Defined.

(** X3. [pick_key_and_mode] never fails: it takes exactly two draws, writes
    nothing, and returns a root that is one of [NOTES] together with a mode
    that is "major" or "minor". *)
Theorem pick_key_and_mode_in_range (w : world) :
  exists root mode : string,
    pick_key_and_mode w = (Return (root, mode), advance (advance w)) /\
    In root NOTES /\
    (mode = "major"%string \/ mode = "minor"%string).
Proof.
  eexists; eexists. split; [apply pick_key_and_mode_run |]. split.
  - apply nth_In. apply (draw_lt w 12). discriminate.
  - pose proof (draw_lt (advance w) 2 ltac:(discriminate)) as Hlt.
    destruct (draw (advance w) 2) as [| [| n]]; [left | right | lia]; reflexivity.
Qed.

(** X4. Every one of the 24 keys can be picked: for each root of [NOTES] and
    each of the two modes there is a random source on which
    [pick_key_and_mode] returns that root and that mode. *)
Theorem pick_key_and_mode_reaches_every_key (root mode : string) :
  In root NOTES ->
  mode = "major"%string \/ mode = "minor"%string ->
  exists w : world, fst (pick_key_and_mode w) = Return (root, mode).
Proof.
  intros Hroot Hmode.
  destruct (In_nth NOTES root ""%string Hroot) as [k [Hk Hnth]].
  change (List.length NOTES) with 12%nat in Hk.
  pose (m := if (mode =? "major")%string then 0%nat else 1%nat).
  exists {| entropy := fun i => match i with O => k | _ => m end;
            cursor := 0; stdout := "" |}.
  rewrite pick_key_and_mode_run. cbn [fst]. unfold draw, advance.
  cbn [entropy cursor]. rewrite (Nat.mod_small k 12 Hk), Hnth.
  destruct Hmode as [-> | ->]; reflexivity.
Qed.

Lemma pick_key_and_mode_reaches_every_key_witness :
  In "F#"%string NOTES /\
  ("minor"%string = "major"%string \/ "minor"%string = "minor"%string) /\
  exists w : world, fst (pick_key_and_mode w) = Return ("F#"%string, "minor"%string).
Proof.
  assert (Hroot : In "F#"%string NOTES) by (cbn; tauto).
  assert (Hmode : "minor"%string = "major"%string \/ "minor"%string = "minor"%string)
    by (right; reflexivity).
  split; [exact Hroot |]. split; [exact Hmode |].
  apply (pick_key_and_mode_reaches_every_key "F#" "minor" Hroot Hmode).
Defined.

(** X5. [pick_progression] never fails: for any mode string it takes exactly
    one draw, writes nothing, and returns a template of
    [MAJOR_PROGRESSIONS] when the mode is "major" and of
    [MINOR_PROGRESSIONS] otherwise; and every template of the table can be
    picked, on some random source. *)
Theorem pick_progression_in_table (mode : string) :
  let table := if (mode =? "major")%string then MAJOR_PROGRESSIONS
               else MINOR_PROGRESSIONS in
  (forall w : world,
      exists t, pick_progression mode w = (Return t, advance w) /\ In t table) /\
  (forall t, In t table ->
             exists w : world, fst (pick_progression mode w) = Return t).
Proof.
  intros table. split.
  - intros w. eexists. split; [apply pick_progression_run |].
    apply nth_In. fold table.
    replace (List.length table) with 4%nat
      by (unfold table; destruct (mode =? "major")%string; reflexivity).
    apply draw_lt. discriminate.
  - intros t Ht.
    destruct (In_nth table t ([], []) Ht) as [j [Hj Hnth]].
    replace (List.length table) with 4%nat in Hj
      by (unfold table; destruct (mode =? "major")%string; reflexivity).
    exists {| entropy := fun _ => j; cursor := 0; stdout := "" |}.
    rewrite pick_progression_run. cbn [fst]. fold table. unfold draw.
    cbn [entropy cursor]. rewrite (Nat.mod_small j 4 Hj). f_equal. exact Hnth.
Qed.

Lemma pick_progression_in_table_witness :
  exists w : world,
    fst (pick_progression "minor" w)
    = Return (["i"; "iv"; "v"; "i"]%string, [1; 4; 5; 1]).
Proof.
  apply (proj2 (pick_progression_in_table "minor")).
  cbn. right. left. reflexivity.
Defined.

(** X6. Chord names are unambiguous: over the twelve [NOTES] and the three
    qualities "maj", "min" and "dim", [chord_name] gives 36 different names,
    so a printed chord determines its root and its quality. *)
Theorem chord_name_injective (n1 n2 q1 q2 : string) :
  In n1 NOTES -> In n2 NOTES -> known_quality q1 -> known_quality q2 ->
  chord_name n1 q1 = chord_name n2 q2 -> n1 = n2 /\ q1 = q2.
Proof.
  unfold known_quality. intros H1 H2 Hq1 Hq2.
  cbn [In NOTES] in H1, H2.
  repeat (destruct H1 as [<- | H1]); [.. | contradiction];
    (destruct Hq1 as [-> | [-> | ->]];
     (repeat (destruct H2 as [<- | H2]); [.. | contradiction];
      (destruct Hq2 as [-> | [-> | ->]];
       (intros Heq; first [discriminate Heq | split; reflexivity])))).
Qed.

Lemma chord_name_injective_witness :
  In "A"%string NOTES /\ known_quality "min" /\
  chord_name "A" "min" = chord_name "A" "min" /\
  ("A"%string = "A"%string /\ "min"%string = "min"%string).
Proof.
  assert (Hn : In "A"%string NOTES) by (cbn; tauto).
  assert (Hq : known_quality "min") by (right; left; reflexivity).
  split; [exact Hn |]. split; [exact Hq |]. split; [reflexivity |].
  apply (chord_name_injective "A" "A" "min" "min" Hn Hn Hq Hq). reflexivity.
Defined.

(** X7. The seven notes of a built scale are pairwise different: for a root
    of [NOTES] and any mode string, the scale [build_scale] returns has no
    repeated pitch class. *)
Theorem build_scale_notes_distinct
        (root mode : string) (scale : list string) (w w' : world) :
  build_scale root mode w = (Return scale, w') -> NoDup scale.
Proof.
  intros Hrun.
  pose proof (build_scale_returns_known_root _ _ _ _ _ Hrun) as Hin.
  apply In_nth_error in Hin. destruct Hin as [k Hk].
  rewrite (build_scale_run k root mode w Hk) in Hrun.
  injection Hrun as <- _.
  do 12 (destruct k as [| k];
         [destruct (mode =? "major")%string; cbv;
          repeat (apply NoDup_cons;
                  [intros Hin; cbn in Hin;
                   repeat (destruct Hin as [Hin | Hin]; [discriminate Hin |]);
                   exact Hin |]);
          apply NoDup_nil |]).
  destruct k; discriminate Hk.
Qed.

Lemma build_scale_notes_distinct_witness :
  build_scale "E" "minor" sample_world
  = (Return ["E"; "F#"; "G"; "A"; "B"; "C"; "D"]%string, sample_world) /\
  NoDup ["E"; "F#"; "G"; "A"; "B"; "C"; "D"]%string.
Proof.
  assert (Hrun : build_scale "E" "minor" sample_world
                 = (Return ["E"; "F#"; "G"; "A"; "B"; "C"; "D"]%string, sample_world))
    by reflexivity.
  split; [exact Hrun |].
  apply (build_scale_notes_distinct "E" "minor" _ sample_world sample_world Hrun).
Defined.

(** X8. [NOTES] has no repeated name, so position and name determine each
    other: looking up position [i] (0..11) and then asking [NOTES.index]
    gives [i] back, and the position [NOTES.index] finds for a name of
    [NOTES] holds that name. *)
Theorem notes_index_round_trip (w : world) :
  NoDup NOTES /\
  (forall i : Z, 0 <= i < 12 ->
     (note <- getitem NOTES i ;; list_index NOTES note) w = (Return i, w)) /\
  (forall r : string, In r NOTES ->
     (i <- list_index NOTES r ;; getitem NOTES i) w = (Return r, w)).
Proof.
  split; [| split].
  - unfold NOTES.
    repeat (apply NoDup_cons;
            [intros Hin; cbn in Hin;
             repeat (destruct Hin as [Hin | Hin]; [discriminate Hin |]);
             exact Hin |]).
    apply NoDup_nil.
  - intros i Hi.
    assert (Hcases : i = 0 \/ i = 1 \/ i = 2 \/ i = 3 \/ i = 4 \/ i = 5 \/ i = 6 \/
                     i = 7 \/ i = 8 \/ i = 9 \/ i = 10 \/ i = 11) by lia.
    repeat (destruct Hcases as [-> | Hcases]; [reflexivity |]).
    subst i. reflexivity.
  - intros r Hr. cbn [In NOTES] in Hr.
    repeat (destruct Hr as [<- | Hr]; [reflexivity |]). contradiction.
Qed.

Lemma notes_index_round_trip_witness :
  (note <- getitem NOTES 6 ;; list_index NOTES note) sample_world
  = (Return 6, sample_world).
Proof.
  apply (proj1 (proj2 (notes_index_round_trip sample_world)) 6). lia.
Defined.

Lemma degree_cases (d : Z) :
  degree_in_range d ->
  d = 1 \/ d = 2 \/ d = 3 \/ d = 4 \/ d = 5 \/ d = 6 \/ d = 7.
Proof. unfold degree_in_range. lia. Qed.

(** X9. Relative keys share their notes and their chords: the natural minor
    scale built on the root at position [k] is the major scale built on the
    root three semitones higher, started from its sixth note, and each
    degree [d] of the minor key names the same chord as degree
    [(d + 4) mod 7 + 1] of that major key. *)
Theorem relative_major_same_chords (k : nat) (r rel : string) (w : world) :
  nth_error NOTES k = Some r ->
  nth_error NOTES ((k + 3) mod 12) = Some rel ->
  exists minor_scale major_scale : list string,
    build_scale r "minor" w = (Return minor_scale, w) /\
    build_scale rel "major" w = (Return major_scale, w) /\
    (forall i : nat, (i < 7)%nat ->
       nth_error minor_scale i = nth_error major_scale ((i + 5) mod 7)) /\
    (forall d : Z, degree_in_range d ->
       degree_to_chord minor_scale d "minor" w
       = degree_to_chord major_scale ((d + 4) mod 7 + 1) "major" w).
Proof.
  intros Hk Hrel.
  do 12 (destruct k as [| k];
         [injection Hk as <-; injection Hrel as <-;
          eexists; eexists;
          split; [reflexivity |]; split; [reflexivity |]; split;
          [intros i Hi; do 7 (destruct i as [| i]; [reflexivity |]); lia
          |intros d Hd; apply degree_cases in Hd;
           repeat (destruct Hd as [-> | Hd]; [reflexivity |]);
           subst d; reflexivity] |]).
  destruct k; discriminate Hk.
Qed.

Lemma relative_major_same_chords_witness :
  nth_error NOTES 9 = Some "A"%string /\
  nth_error NOTES ((9 + 3) mod 12) = Some "C"%string /\
  exists minor_scale major_scale : list string,
    build_scale "A" "minor" sample_world = (Return minor_scale, sample_world) /\
    build_scale "C" "major" sample_world = (Return major_scale, sample_world) /\
    (forall i : nat, (i < 7)%nat ->
       nth_error minor_scale i = nth_error major_scale ((i + 5) mod 7)) /\
    (forall d : Z, degree_in_range d ->
       degree_to_chord minor_scale d "minor" sample_world
       = degree_to_chord major_scale ((d + 4) mod 7 + 1) "major" sample_world).
Proof.
  split; [reflexivity |]. split; [reflexivity |].
  apply (relative_major_same_chords 9 "A" "C" sample_world); reflexivity.
Defined.

(** X10. Scale building and chord naming compose: for a root at position [k]
    of [NOTES], any mode string and a degree [d] in 1..7, naming degree [d]
    on the scale built for the key gives [chord_name] of the pitch class at
    position [(k + OFFSETS[d-1]) mod 12] and of [QUALITIES[d-1]], with the
    tables of the mode; nothing is drawn or written. *)
Theorem key_degree_chord (k : nat) (r mode : string) (d : Z) (w : world) :
  nth_error NOTES k = Some r ->
  degree_in_range d ->
  let offsets := if (mode =? "major")%string then MAJOR_OFFSETS else MINOR_OFFSETS in
  let qualities :=
    if (mode =? "major")%string then MAJOR_QUALITIES else MINOR_QUALITIES in
  exists note quality : string,
    note_at ((Z.of_nat k + nth (Z.to_nat (d - 1)) offsets 0) mod 12) = Some note /\
    nth_error qualities (Z.to_nat (d - 1)) = Some quality /\
    (scale <- build_scale r mode ;; degree_to_chord scale d mode) w
    = (Return (chord_name note quality), w).
Proof.
  intros Hk Hd offsets qualities.
  assert (Hlt : (k < 12)%nat).
  { change 12%nat with (List.length NOTES). apply nth_error_Some. congruence. }
  assert (Hoff : List.length offsets = 7%nat)
    by (unfold offsets; destruct (mode =? "major")%string; reflexivity).
  assert (Hqual : List.length qualities = 7%nat)
    by (unfold qualities; destruct (mode =? "major")%string; reflexivity).
  pose proof (scale_follows_offsets offsets k Hoff Hlt) as Hfollow.
  unfold degree_in_range in Hd.
  assert (Hi : (Z.to_nat (d - 1) < 7)%nat) by lia.
  specialize (Hfollow (Z.to_nat (d - 1)) Hi).
  set (scale := map _ offsets) in Hfollow.
  assert (Hlen : List.length scale = 7%nat)
    by (unfold scale; rewrite length_map; exact Hoff).
  exists (nth (Z.to_nat (d - 1)) scale ""%string),
         (nth (Z.to_nat (d - 1)) qualities ""%string).
  split; [| split].
  - rewrite <- Hfollow. apply nth_error_nth'. lia.
  - apply nth_error_nth'. lia.
  - rewrite (bind_run _ _ _ _ _ (build_scale_run k r mode w Hk)).
    fold offsets scale.
    apply degree_to_chord_run; [exact Hlen | exact Hd].
Qed.

Lemma key_degree_chord_witness :
  nth_error NOTES 7 = Some "G"%string /\
  degree_in_range 5 /\
  exists note quality : string,
    note_at ((Z.of_nat 7 + nth (Z.to_nat (5 - 1)) MAJOR_OFFSETS 0) mod 12) = Some note /\
    nth_error MAJOR_QUALITIES (Z.to_nat (5 - 1)) = Some quality /\
    (scale <- build_scale "G" "major" ;; degree_to_chord scale 5 "major") sample_world
    = (Return (chord_name note quality), sample_world).
Proof.
  assert (Hd : degree_in_range 5) by (unfold degree_in_range; lia).
  split; [reflexivity |]. split; [exact Hd |].
  apply (key_degree_chord 7 "G" "major" 5 sample_world eq_refl Hd).
Defined.

(** X11. The first degree names the key: on the scale built for a root of
    [NOTES], degree 1 is the root itself in "major" and the root followed by
    "m" in any other mode. *)
Theorem tonic_chord_names_key (r mode : string) (w : world) :
  In r NOTES ->
  (scale <- build_scale r mode ;; degree_to_chord scale 1 mode) w
  = (Return (if (mode =? "major")%string then r else (r ++ "m")%string), w).
Proof.
  intros Hr. apply In_nth_error in Hr. destruct Hr as [k Hk].
  rewrite (bind_run _ _ _ _ _ (build_scale_run k r mode w Hk)).
  unfold degree_to_chord.
  do 12 (destruct k as [| k];
         [injection Hk as <-; destruct (mode =? "major")%string; reflexivity |]).
  destruct k; discriminate Hk.
Qed.

Lemma tonic_chord_names_key_witness :
  In "D#"%string NOTES /\
  (scale <- build_scale "D#" "minor" ;; degree_to_chord scale 1 "minor") sample_world
  = (Return "D#m"%string, sample_world).
Proof.
  assert (Hr : In "D#"%string NOTES) by (cbn; tauto).
  split; [exact Hr |].
  apply (tonic_chord_names_key "D#" "minor" sample_world Hr).
Defined.

(** X12. The two halves of every progression template agree: in every
    template of the table of a mode, the roman numeral at each position is
    the numeral of the degree at that position, written in upper case when
    the mode's quality for that degree is "maj" and in lower case when it is
    "min"; no template uses a degree whose quality is "dim". *)
Theorem numerals_match_degrees (mode : string) (roman : list string)
        (degrees : list Z) (w : world) :
  In (roman, degrees) (if (mode =? "major")%string then MAJOR_PROGRESSIONS
                       else MINOR_PROGRESSIONS) ->
  Forall2
    (fun (numeral : string) (d : Z) =>
       exists quality : string,
         getitem (if (mode =? "major")%string then MAJOR_QUALITIES
                  else MINOR_QUALITIES) (d - 1) w = (Return quality, w) /\
         (quality = "maj"%string /\
          nth_error UPPER_NUMERALS (Z.to_nat (d - 1)) = Some numeral \/
          quality = "min"%string /\
          nth_error LOWER_NUMERALS (Z.to_nat (d - 1)) = Some numeral))
    roman degrees.
Proof.
  intros Hin.
  destruct (mode =? "major")%string; cbn [In MAJOR_PROGRESSIONS MINOR_PROGRESSIONS] in Hin;
    repeat (destruct Hin as [[= <- <-] | Hin];
            [repeat (apply Forall2_cons;
                     [eexists; split;
                      [reflexivity
                      |first [left; split; reflexivity | right; split; reflexivity]] |]);
             apply Forall2_nil |]);
    contradiction.
Qed.

Lemma numerals_match_degrees_witness :
  In (["vi"; "IV"; "I"; "V"]%string, [6; 4; 1; 5])
     (if ("major" =? "major")%string then MAJOR_PROGRESSIONS else MINOR_PROGRESSIONS) /\
  Forall2
    (fun (numeral : string) (d : Z) =>
       exists quality : string,
         getitem (if ("major" =? "major")%string then MAJOR_QUALITIES
                  else MINOR_QUALITIES) (d - 1) sample_world
         = (Return quality, sample_world) /\
         (quality = "maj"%string /\
          nth_error UPPER_NUMERALS (Z.to_nat (d - 1)) = Some numeral \/
          quality = "min"%string /\
          nth_error LOWER_NUMERALS (Z.to_nat (d - 1)) = Some numeral))
    ["vi"; "IV"; "I"; "V"]%string [6; 4; 1; 5].
Proof.
  assert (Hin : In (["vi"; "IV"; "I"; "V"]%string, [6; 4; 1; 5])
                   (if ("major" =? "major")%string then MAJOR_PROGRESSIONS
                    else MINOR_PROGRESSIONS)).
  { cbn. right. right. left. reflexivity. }
  split; [exact Hin |].
  apply (numerals_match_degrees "major" _ _ sample_world Hin).
Defined.

(** X13. What a run prints depends only on its three draws: two runs of
    [main] whose random sources give the same root draw, the same mode draw
    and the same template draw append the same text to standard output,
    whatever was printed before and whatever the rest of the two random
    sources holds. *)
Theorem output_depends_only_on_draws (w1 w2 : world) :
  draw w1 12 = draw w2 12 ->
  draw (advance w1) 2 = draw (advance w2) 2 ->
  draw (advance (advance w1)) 4 = draw (advance (advance w2)) 4 ->
  exists text : string,
    stdout (snd (main w1)) = (stdout w1 ++ text)%string /\
    stdout (snd (main w2)) = (stdout w2 ++ text)%string.
Proof.
  intros Hroot Hmode Htemplate.
  destruct (generate_progression_run w1)
    as (k1 & root1 & mode1 & roman1 & degrees1 & scale1 & chords1 & H1).
  destruct (generate_progression_run w2)
    as (k2 & root2 & mode2 & roman2 & degrees2 & scale2 & chords2 & H2).
  destruct H1 as (_ & _ & Hkey1 & Hprog1 & Hscale1 & Hchords1 & Hrun1 & _).
  destruct H2 as (_ & _ & Hkey2 & Hprog2 & Hscale2 & Hchords2 & Hrun2 & _).
  rewrite pick_key_and_mode_run in Hkey1, Hkey2.
  rewrite Hroot, Hmode in Hkey1.
  apply Return_inj in Hkey1. apply Return_inj in Hkey2.
  rewrite Hkey1 in Hkey2. injection Hkey2 as -> ->.
  rewrite pick_progression_run in Hprog1, Hprog2.
  rewrite Htemplate in Hprog1.
  apply Return_inj in Hprog1. apply Return_inj in Hprog2.
  rewrite Hprog1 in Hprog2. injection Hprog2 as -> ->.
  specialize (Hscale1 sample_world). rewrite (Hscale2 sample_world) in Hscale1.
  injection Hscale1 as ->.
  specialize (Hchords1 sample_world). rewrite (Hchords2 sample_world) in Hchords1.
  injection Hchords1 as ->.
  unfold main. rewrite Hrun1, Hrun2. cbn [snd stdout].
  eexists. split; reflexivity.
Qed.

Lemma output_depends_only_on_draws_witness :
  let later := {| entropy := fun n => match n with
                                      | 5%nat => 12%nat
                                      | 6%nat => 3%nat
                                      | 7%nat => 6%nat
                                      | _ => 0%nat
                                      end;
                  cursor := 5;
                  stdout := "earlier output" |} in
  exists text : string,
    stdout (snd (main sample_world)) = (stdout sample_world ++ text)%string /\
    stdout (snd (main later)) = (stdout later ++ text)%string.
Proof.
  intros later.
  apply (output_depends_only_on_draws sample_world later); reflexivity.
Defined.

